(** * dask-histogram: the distributed aggregation engine

    A shallow embedding of [dask_histogram/core.py] and of the older
    [dask_histogram/hlg.py] variant, together with the properties of the
    graph construction (reduction tree, naming, binary operators,
    materialisation) that the design document states.

    Python objects live in a store addressed by location, so that sharing
    (a dict passed to a graph and mutated afterwards, a collection used as
    an operand) is visible.  Low-level graphs are finite maps from task
    keys to task tuples. *)

From Stdlib Require Import QArith.
From stdpp Require Import base numbers list list_numbers strings pretty gmap.

Open Scope Z_scope.
Set Warnings "-register-all".

(** ** Python values that appear in graphs *)

(** A task key: the bare name [name], or the tuple [(name, i, ...)]. *)
Inductive key :=
| KName (name : string)
| KTuple (name : string) (index : list Z).

Global Instance key_eq_dec : EqDecision key.
Proof. solve_decision. Defined.

Global Instance key_countable : Countable key.
Proof.
  refine (inj_countable'
    (fun k => match k with KName s => inl s | KTuple s i => inr (s, i) end)
    (fun x => match x with inl s => KName s | inr (s, i) => KTuple s i end) _).
  by intros [].
Defined.

(** Storage kinds of [boost_histogram.storage]. *)
Inductive storage :=
| Int64 | AtomicInt64 | Double | Unlimited | Weight | Mean | WeightedMean.

Global Instance storage_eq_dec : EqDecision storage.
Proof. solve_decision. Defined.

(** An axis of the reference histogram: its number of bins (without the
    flow bins) and its [edges] array. *)
Record axis := Axis { ax_extent : Z; ax_edges : list Q }.

(** The reference histogram [histref]: axes and storage type, no content. *)
Record Histref := MkHistref { axes : list axis; _storage_type : storage }.

(** [histref.ndim] and [histref.shape]. *)
Definition href_ndim (h : Histref) : Z := Z.of_nat (length (axes h)).
Definition href_shape (h : Histref) : list Z := map ax_extent (axes h).

(** Locations of Python objects in the store. *)
Abbreviation loc := nat.

(** An operand or literal: a reference to an object, or a number. *)
Inductive pyarg :=
| PRef (l : loc)
| PNum (q : Q).

(** The functions of the repository that are run per partition. *)
Inductive blocked :=
| blocked_sa_w | blocked_sa | blocked_ma_w | blocked_ma
| blocked_df_w | blocked_df.

(** The callables placed at the head of a task tuple. *)
Inductive func :=
| empty_safe_aggregate                       (* dask.bag.core *)
| f_blocked (f : blocked) (histref : Histref) (* a blocked fill, histref=... *)
| operator_iadd | operator_imul | operator_itruediv
| lambda_to_numpy.                           (* lambda x, f: x.to_numpy(flow=f)[0] *)

(** The arguments of a task tuple. *)
Inductive targ :=
| ASum                      (* the builtin [sum] *)
| AKey (k : key)            (* a key of the graph *)
| AKeys (ks : list key)     (* a list of keys *)
| ABool (b : bool)
| ALit (v : pyarg).         (* any other literal *)

(** A task: [(callable, arg, ...)]. *)
Definition task : Type := func * list targ.

(** Exceptions raised by the modelled code. *)
Inductive exn :=
| ValueError | AttributeError | UnboundLocalError | TypeError
| IndexError | KeyError.

(** Outcome of a call: a value, an exception, or no answer within the
    given number of loop iterations. *)
Inductive outcome (A : Type) :=
| Ok (a : A)
| Raise (e : exn)
| NoFuel.
Arguments Ok {A} a.
Arguments Raise {A} e.
Arguments NoFuel {A}.

(** ** Helpers from the Python language and from toolz *)

(** [range(k)]. *)
Definition range (k : Z) : list Z := seqZ 0 k.

(** [enumerate(l)]. *)
Definition enumerate {A} (l : list A) : list (Z * A) :=
  imap (fun i x => (Z.of_nat i, x)) l.

(** [toolz.partition_all(n, seq)]: consecutive tuples of length [n],
    the last one possibly shorter.  With [n <= 0] the generator of toolz
    zips no iterator at all and yields nothing. *)
Fixpoint chunks {A} (fuel n : nat) (l : list A) : list (list A) :=
  match l, fuel with
  | [], _ => []
  | _, O => []
  | _, S fuel' => take n l :: chunks fuel' n (drop n l)
  end.

Definition partition_all {A} (n : Z) (l : list A) : list (list A) :=
  if decide (n <= 0) then [] else chunks (length l) (Z.to_nat n) l.

(** ** The level loop of [_reduction]

    The local variables of [_reduction] that the [while] loop updates.
    [ls_i] is the loop variable [i] of the inner [for], unbound ([None])
    until the [for] has run once. *)
Record loop_state := LoopState {
  ls_k : Z;
  ls_b : string;
  ls_d : nat;
  ls_i : option Z;
  ls_dsk : gmap key task
}.

(** [(empty_safe_aggregate, sum, [(b, j) for j in inds], is_last)]. *)
Definition aggregate_task (b : string) (inds : list Z) (is_last : bool) : task :=
  (empty_safe_aggregate,
   [ASum; AKeys (map (fun j => KTuple b [j]) inds); ABool is_last]).

(** One pass of [for i, inds in enumerate(...)]: [dsk[(c, i)] = ...]. *)
Definition for_body (c b : string) (acc : gmap key task * option Z)
    (x : Z * list Z) : gmap key task * option Z :=
  (<[KTuple c [x.1] := aggregate_task b x.2 false]> acc.1, Some x.1).

(** The body of [while k > split_every]. *)
Definition while_body (split_every : Z) (fmt : string) (s : loop_state)
    : outcome loop_state :=
  let c := fmt +:+ pretty (ls_d s) in
  let r := fold_left (for_body c (ls_b s))
             (enumerate (partition_all split_every (range (ls_k s))))
             (ls_dsk s, ls_i s) in
  match r.2 with
  | None => Raise UnboundLocalError            (* [k = i + 1], [i] unbound *)
  | Some i =>
      Ok {| ls_k := i + 1; ls_b := c; ls_d := S (ls_d s);
            ls_i := Some i; ls_dsk := r.1 |}
  end.

Fixpoint while_loop (fuel : nat) (split_every : Z) (fmt : string)
    (s : loop_state) : outcome loop_state :=
  if decide (ls_k s > split_every) then
    match fuel with
    | O => NoFuel
    | S fuel' =>
        match while_body split_every fmt s with
        | Ok s' => while_loop fuel' split_every fmt s'
        | Raise e => Raise e
        | NoFuel => NoFuel
        end
    end
  else Ok s.

(** ** External collaborators

    [dask.base.tokenize] hashes its arguments to a string.  A dask
    collection is hashed through its name ([__dask_tokenize__]). *)
Inductive tokarg :=
| TokColl (name : string)
| TokHistref (h : Histref)
| TokNone
| TokSum                     (* the builtin [sum] *)
| TokInt (z : Z)
| TokNum (q : Q)
| TokObj (l : loc)           (* any other object *)
| TokTuple (l : list tokarg).

Class Tokenizer := tokenize : list tokarg -> string.

(** A partitioned data source handed to the engine (a dask array,
    dataframe or series): its graph, name, partition count, the rank of
    one partition and whether [dask.utils.is_dataframe_like] holds. *)
Record collection := Collection {
  c_dask : loc;
  c_name : string;
  c_npartitions : Z;
  c_ndim : Z;
  c_dataframe_like : bool
}.

(** [dask.dataframe.core.partitionwise_graph(func, name, *args, histref=...)]
    builds the layer that applies [func] to aligned partitions; it may
    raise on its own account. *)
Class Partitionwise :=
  partitionwise : blocked -> string -> list collection -> Histref ->
                  outcome (gmap key task).

(** ** The store of Python objects *)

Inductive dtype := dt_int | dt_float.

Inductive obj :=
| ODict (d : gmap key task)
    (* a dict used as low-level graph *)
| OGraph (layers : gmap string loc) (dependencies : gmap string (gset string))
    (* a HighLevelGraph; a layer refers to the mapping it wraps *)
| OColl (c : collection)
    (* a data source *)
| OPart (dask : loc) (name : string) (npartitions : Z) (histref : option Histref)
    (* PartitionedHistogram; the class of hlg.py has no histref *)
| OAgg (dsk : loc) (key : string) (histref : option Histref)
    (* AggHistogram; the class of hlg.py has no histref *)
| OArray (dask : loc) (name : string) (shape chunks : list Z) (dt : dtype).
    (* dask.array.Array *)

Abbreviation store := (list obj).

(** Computations that read and extend the store and may raise. *)
Definition M (A : Type) : Type := store -> outcome A * store.

Global Instance M_ret : MRet M := fun A a st => (Ok a, st).
Global Instance M_bind : MBind M := fun A B f m st =>
  match m st with
  | (Ok a, st') => f a st'
  | (Raise e, st') => (Raise e, st')
  | (NoFuel, st') => (NoFuel, st')
  end.

Definition raise {A} (e : exn) : M A := fun st => (Raise e, st).
Definition lift {A} (o : outcome A) : M A := fun st => (o, st).
Definition get_store : M store := fun st => (Ok st, st).

(** Object creation: the new object gets the next free location. *)
Definition alloc (o : obj) : M loc := fun st => (Ok (length st), st ++ [o]).

(** In-place update of the object at [l]. *)
Definition update (l : loc) (o : obj) : M unit := fun st => (Ok tt, <[l := o]> st).

(** [try: m except AttributeError: h]. *)
Definition try_except_AttributeError {A} (m h : M A) : M A := fun st =>
  match m st with
  | (Raise AttributeError, st') => h st'
  | r => r
  end.

(** *** The dask collection protocol on stored objects *)

(** [__dask_graph__()]. *)
Definition dask_graph (o : obj) : option loc :=
  match o with
  | OColl c => Some (c_dask c)
  | OPart g _ _ _ | OAgg g _ _ | OArray g _ _ _ _ => Some g
  | ODict _ | OGraph _ _ => None
  end.

(** [.name], which is also what [__dask_tokenize__()] returns and the
    single entry of [__dask_layers__()]. *)
Definition dask_name (o : obj) : option string :=
  match o with
  | OColl c => Some (c_name c)
  | OPart _ n _ _ | OAgg _ n _ | OArray _ n _ _ _ => Some n
  | ODict _ | OGraph _ _ => None
  end.

(** [__dask_keys__()]. *)
Definition dask_keys (o : obj) : list key :=
  match o with
  | OPart _ n np _ => map (fun i => KTuple n [i]) (range np)
  | OAgg _ k _ => [KName k]
  | _ => []
  end.

Definition is_dask_collection (st : store) (a : pyarg) : bool :=
  match a with
  | PRef l => match st !! l with
              | Some o => match dask_graph o with Some _ => true | None => false end
              | None => false
              end
  | PNum _ => false
  end.

(** [x.histref]. *)
Definition getattr_histref (a : pyarg) : M Histref := fun st =>
  match a with
  | PRef l =>
      match st !! l with
      | Some (OPart _ _ _ (Some h)) | Some (OAgg _ _ (Some h)) => (Ok h, st)
      | _ => (Raise AttributeError, st)
      end
  | PNum _ => (Raise AttributeError, st)
  end.

(** How [tokenize] sees an argument. *)
Definition tok (st : store) (a : pyarg) : tokarg :=
  match a with
  | PNum q => TokNum q
  | PRef l => match st !! l ≫= dask_name with
              | Some n => TokColl n
              | None => TokObj l
              end
  end.

(** [HighLevelGraph.from_collections(name, layer, dependencies)]: a new
    graph holding [layer] under [name] together with the layers and
    dependencies of the graphs of the collections in [dependencies];
    something that is not a collection is a [TypeError].  Collections
    whose graph is not a HighLevelGraph are not modelled and are reported
    the same way.

    [_from_collection] is the path dask takes for exactly one dependency:
    the layers of its graph are copied and [name] is set afterwards. *)
Definition read_graph (st : store) (c : loc)
    : outcome (string * gmap string loc * gmap string (gset string)) :=
  match st !! c with
  | Some o =>
      match dask_graph o, dask_name o with
      | Some g, Some n =>
          match st !! g with
          | Some (OGraph gl gd) => Ok (n, gl, gd)
          | _ => Raise TypeError
          end
      | _, _ => Raise TypeError
      end
  | None => Raise TypeError
  end.

Definition _from_collection (name : string) (layer : loc) (c : loc) : M loc :=
  st ← get_store;
  '(n, gl, gd) ← lift (read_graph st c);
  alloc (OGraph (<[name := layer]> gl) (<[name := {[n]}]> gd)).

(** One pass of the loop over several dependencies: [layers.update],
    [deps.update] and [deps[name] |= ...]. *)
Definition merge_dependency (name : string) (st : store)
    (acc : outcome (gmap string loc * gmap string (gset string))) (c : loc)
    : outcome (gmap string loc * gmap string (gset string)) :=
  match acc with
  | Ok (layers, deps) =>
      match read_graph st c with
      | Ok (n, gl, gd) =>
          let deps' := gd ∪ deps in
          Ok (gl ∪ layers, <[name := default ∅ (deps' !! name) ∪ {[n]}]> deps')
      | Raise e => Raise e
      | NoFuel => NoFuel
      end
  | r => r
  end.

Definition from_collections (name : string) (layer : loc)
    (dependencies : list loc) : M loc :=
  match dependencies with
  | [c] => _from_collection name layer c
  | _ =>
      st ← get_store;
      r ← lift (fold_left (merge_dependency name st) (remove_dups dependencies)
                  (Ok ({[name := layer]}, {[name := ∅]})));
      alloc (OGraph r.1 r.2)
  end.

(** ** core.py *)

(** The [split_every] argument: [None], [False] or an integer. *)
Inductive split_arg :=
| SplitNone
| SplitFalse
| SplitInt (n : Z).

(** The first lines of [_reduction]: the defaults of [split_every]. *)
Definition effective_split (split_every : split_arg) (npartitions : Z) : Z :=
  match split_every with
  | SplitNone => 4
  | SplitFalse => npartitions
  | SplitInt n => n
  end.

(** Attribute access on a PartitionedHistogram. *)
Definition get_part (ph : loc) : M (loc * string * Z * option Histref) := fun st =>
  match st !! ph with
  | Some (OPart g name np href) => (Ok (g, name, np, href), st)
  | _ => (Raise AttributeError, st)
  end.

(** Attribute access on an AggHistogram. *)
Definition get_agg (a : loc) : M (loc * string * option Histref) := fun st =>
  match st !! a with
  | Some (OAgg g k href) => (Ok (g, k, href), st)
  | _ => (Raise AttributeError, st)
  end.

(** [dsk[new] = dsk.pop(old)]. *)
Definition pop_into (old new : key) (dsk : gmap key task) : outcome (gmap key task) :=
  match dsk !! old with
  | Some t => Ok (<[new := t]> (delete old dsk))
  | None => Raise KeyError
  end.

Section Core.
Context `{Tokenizer} `{Partitionwise}.

(** The arguments of [tokenize(ph, sum, split_every)]. *)
Definition aggregate_token_args (ph_name : string) (split_every : Z) : list tokarg :=
  [TokColl ph_name; TokSum; TokInt split_every].

(** [fmt = f"hist-aggregate-{tokenize(ph, sum, split_every)}"]. *)
Definition aggregate_name (ph_name : string) (split_every : Z) : string :=
  "hist-aggregate-" +:+ tokenize (aggregate_token_args ph_name split_every).

(** The low-level graph of [_reduction] as it stands after
    [dsk[(fmt, 0)] = ...], together with the final loop state. *)
Definition reduction_dsk (fuel : nat) (name : string) (npartitions : Z)
    (split_every : Z) : outcome (loop_state * gmap key task) :=
  let fmt := aggregate_name name split_every in
  match while_loop fuel split_every fmt
          {| ls_k := npartitions; ls_b := name; ls_d := 0%nat;
             ls_i := None; ls_dsk := ∅ |} with
  | Ok s =>
      Ok (s, <[KTuple fmt [0] := aggregate_task (ls_b s) (range (ls_k s)) true]>
               (ls_dsk s))
  | Raise e => Raise e
  | NoFuel => NoFuel
  end.

(** [_reduction(ph, split_every)]; [fuel] bounds the passes of its
    [while] loop. *)
Definition _reduction (fuel : nat) (ph : loc) (split_every : split_arg) : M loc :=
  '(_, name, npartitions, href) ← get_part ph;
  let split_every := effective_split split_every npartitions in
  let fmt := aggregate_name name split_every in
  r ← lift (reduction_dsk fuel name npartitions split_every);
  dsk ← lift (pop_into (KTuple fmt [0]) (KName fmt) r.2);
  d ← alloc (ODict dsk);
  g ← from_collections fmt d [ph];
  alloc (OAgg g fmt href).

(** [PartitionedHistogram.reduced]. *)
Definition reduced (fuel : nat) (self : loc) (split_every : split_arg) : M loc :=
  _reduction fuel self split_every.

(** [_dependencies] of the positional arguments and [weights]. *)
Definition _dependencies (args : list loc) (weights : option loc) : list loc :=
  match weights with
  | Some w => args ++ [w]
  | None => args
  end.

(** Reading a data source; other objects are outside the model. *)
Definition get_coll (l : loc) : M collection := fun st =>
  match st !! l with
  | Some (OColl c) => (Ok c, st)
  | _ => (Raise TypeError, st)
  end.

Fixpoint get_colls (ls : list loc) : M (list collection) :=
  match ls with
  | [] => mret []
  | l :: ls' => c ← get_coll l; cs ← get_colls ls'; mret (c :: cs)
  end.

(** The arguments of [tokenize(data, histref, weights)]. *)
Definition block_token_args (data : list collection) (histref : Histref)
    (weights : option collection) : list tokarg :=
  [TokTuple (map (fun c => TokColl (c_name c)) data);
   TokHistref histref;
   from_option (fun c => TokColl (c_name c)) TokNone weights].

(** ["hist-on-block-{}".format(tokenize(data, histref, weights))]. *)
Definition block_name (data : list collection) (histref : Histref)
    (weights : option collection) : string :=
  "hist-on-block-" +:+ tokenize (block_token_args data histref weights).

(** The choice of the blocked function and of its arguments. *)
Definition fill_layer (name : string) (data : list collection)
    (histref : Histref) (weights : option collection) : outcome (gmap key task) :=
  match data, weights with
  | [x], Some w =>
      if c_dataframe_like x
      then partitionwise blocked_df_w name [x; w] histref
      else partitionwise blocked_sa_w name [x; w] histref
  | [x], None =>
      if c_dataframe_like x
      then partitionwise blocked_df name [x] histref
      else partitionwise blocked_sa name [x] histref
  | _, Some w => partitionwise blocked_ma_w name (data ++ [w]) histref
  | _, None => partitionwise blocked_ma name data histref
  end.

(** [_reduced_histogram] of the positional [data], [histref], [weights]
    and [split_every]. *)
Definition _reduced_histogram (fuel : nat) (data : list loc) (histref : Histref)
    (weights : option loc) (split_every : split_arg) : M loc :=
  cs ← get_colls data;
  w ← match weights with
      | Some l => c ← get_coll l; mret (Some c)
      | None => mret None
      end;
  let name := block_name cs histref w in
  g ← lift (fill_layer name cs histref w);
  gl ← alloc (ODict g);
  hlg ← from_collections name gl (_dependencies data weights);
  x0 ← match cs with
       | x :: _ => mret x
       | [] => raise IndexError              (* [data[0]] *)
       end;
  ph ← alloc (OPart hlg name (c_npartitions x0) (Some histref));
  reduced fuel ph split_every.

(** [factory] of the positional [data], [histref], [axes], [storage],
    [weights] and [split_every]. *)
Definition factory (fuel : nat) (data : list loc) (histref : option Histref)
    (axes_arg : option (list axis)) (storage_arg : option storage)
    (weights : option loc) (split_every : split_arg) : M loc :=
  match histref, axes_arg with
  | None, None => raise ValueError
  | None, Some ax =>
      _reduced_histogram fuel data
        (MkHistref ax (default Double storage_arg)) weights split_every
  | Some h, _ => _reduced_histogram fuel data h weights split_every
  end.

(** *** Binary operators *)

Record BinaryOp := MkBinaryOp { bo_func : func; bo_name : string }.

(** ["{}-hist-{}".format(self.__name__, tokenize(a, b))]. *)
Definition binary_name (self : BinaryOp) (ta tb : tokarg) : string :=
  bo_name self +:+ "-hist-" +:+ tokenize [ta; tb].

(** [BinaryOp.__call__(self, a, b)]. *)
Definition BinaryOp_call (self : BinaryOp) (a b : pyarg) : M loc :=
  st ← get_store;
  let name := binary_name self (tok st a) (tok st b) in
  let dep x := match x with
               | PRef l => if is_dask_collection st x then [l] else []
               | PNum _ => []
               end in
  let deps := dep a ++ dep b in
  let k x := match tok st x with
             | TokColl n => AKey (KName n)    (* [x.__dask_tokenize__()] *)
             | _ => ALit x
             end in
  llg ← alloc (ODict {[KName name := (bo_func self, [k a; k b])]});
  g ← from_collections name llg deps;
  ref ← try_except_AttributeError (getattr_histref a) (getattr_histref b);
  alloc (OAgg g name (Some ref)).

Definition _iadd := MkBinaryOp operator_iadd "add".
Definition _imul := MkBinaryOp operator_imul "mul".
Definition _itruediv := MkBinaryOp operator_itruediv "div".

(** The operator methods of AggHistogram. *)
Definition __iadd__ (self : loc) (other : pyarg) : M loc :=
  BinaryOp_call _iadd (PRef self) other.
Definition __add__ (self : loc) (other : pyarg) : M loc := __iadd__ self other.
Definition __radd__ (self : loc) (other : pyarg) : M loc := __iadd__ self other.
Definition __itruediv__ (self : loc) (other : pyarg) : M loc :=
  BinaryOp_call _itruediv (PRef self) other.
Definition __truediv__ (self : loc) (other : pyarg) : M loc := __itruediv__ self other.
Definition __idiv__ (self : loc) (other : pyarg) : M loc := __itruediv__ self other.
Definition __div__ (self : loc) (other : pyarg) : M loc := __idiv__ self other.
Definition __imul__ (self : loc) (other : pyarg) : M loc :=
  BinaryOp_call _imul (PRef self) other.
Definition __mul__ (self : loc) (other : pyarg) : M loc := __imul__ self other.
Definition __rmul__ (self : loc) (other : pyarg) : M loc := __mul__ self other.

(** All the operator spellings of AggHistogram. *)
Definition operator_methods : list (loc -> pyarg -> M loc) :=
  [__iadd__; __add__; __radd__; __itruediv__; __truediv__; __idiv__;
   __div__; __imul__; __mul__; __rmul__].

(** *** Materialisation *)

(** What [to_dask_array] returns: [c] followed by the edge arrays, or
    with [dd] the pair of [c] and the list of edge arrays.  An edge array
    [da.asarray(ax.edges)] is kept by value. *)
Inductive array_result :=
| ResultFlat (c : loc) (edges : list (list Q))
| ResultDD (c : loc) (edges : list (list Q)).

Definition int_storage (h : Histref) : bool :=
  bool_decide (_storage_type h = Int64 ∨ _storage_type h = AtomicInt64).

(** [to_dask_array(agghist, flow, dd)]. *)
Definition to_dask_array (agghist : loc) (flow dd : bool) : M array_result :=
  '(_, key, href) ← get_agg agghist;
  histref ← from_option mret (raise AttributeError) href;
  let name := "to-dask-array-" +:+ tokenize [TokColl key] in
  let zeros := replicate (length (axes histref)) 0 in
  dsk ← alloc (ODict {[KTuple name zeros :=
                         (lambda_to_numpy, [AKey (KName key); ABool flow])]});
  graph ← from_collections name dsk [agghist];
  let shape := href_shape histref in
  let shape := if flow then map (fun i => i + 2) shape else shape in
  let dt := if int_storage histref then dt_int else dt_float in
  c ← alloc (OArray graph name shape shape dt);
  let edges := map ax_edges (axes histref) in
  mret (if dd then ResultDD c edges else ResultFlat c edges).

End Core.

(** [_finalize_partitioned_histogram(results)]. *)
Definition _finalize_partitioned_histogram {A} (results : A) : A := results.

(** ** hlg.py *)

Module hlg.
Section Hlg.
Context `{Tokenizer}.

(** [hlg._reduction(partedhist, split_every)].  The graph is created
    around the dict first; the dict is re-keyed afterwards, in place. *)
Definition _reduction (fuel : nat) (partedhist : loc) (split_every : split_arg)
    : M loc :=
  '(_, name, npartitions, _) ← get_part partedhist;
  let split_every := effective_split split_every npartitions in
  let fmt := aggregate_name name split_every in
  r ← lift (reduction_dsk fuel name npartitions split_every);
  d ← alloc (ODict r.2);
  g ← from_collections fmt d [partedhist];
  dsk ← lift (pop_into (KTuple fmt [0]) (KName fmt) r.2);
  _ ← update d (ODict dsk);
  alloc (OAgg g fmt None).

End Hlg.

(** [hlg.finalize(results)]; the summing variant is commented out in the
    source. *)
Definition finalize {A} (results : A) : A := results.

End hlg.

(** ** What the tasks compute

    The local accumulator of boost-histogram is a collaborator: filling a
    fresh copy of the reference histogram with sample columns and
    optional weights, and adding two histograms. *)

(** A numpy array: its shape and its content in row-major order. *)
Record ndarray := NdArray { nd_shape : list Z; nd_data : list Q }.



Class Accumulator := {
  Hist : Type;
  fill : Histref -> list ndarray -> option ndarray -> Hist;
  hist_add : Hist -> Hist -> Hist
}.

Section Tasks.
Context `{Accumulator}.



(** [_blocked_ma_w]: the last positional argument is the weights. *)
Definition _blocked_ma_w (sample : list ndarray) (histref : Histref)
    : outcome Hist :=
  match last sample with
  | Some weights => Ok (fill histref (removelast sample) (Some weights))
  | None => Raise IndexError
  end.

(** [_blocked_ma]. *)
Definition _blocked_ma (sample : list ndarray) (histref : Histref)
    : outcome Hist :=
  Ok (fill histref sample None).

(** Results of tasks: a histogram, the marker [no_result] of dask.bag,
    an integer, or the list of results of several keys. *)
Inductive pyval :=
| VNoResult
| VInt (z : Z)
| VHist (h : Hist)
| VList (l : list pyval).

(** [sum(parts)] on histograms: [0] when there is none, and
    [((0 + h0) + h1) + ...] otherwise, where [0 + h0] is [h0]. *)
Definition py_sum (parts : list Hist) : pyval :=
  match parts with
  | [] => VInt 0
  | h :: t => VHist (foldl hist_add h t)
  end.

Definition as_hist (v : pyval) : option Hist :=
  match v with
  | VHist h => Some h
  | _ => None
  end.

Definition is_no_result (v : pyval) : bool :=
  match v with VNoResult => true | _ => false end.

(** [empty_safe_aggregate(sum, parts, is_last)] of dask.bag: the parts
    that are [no_result] are dropped; nothing left gives [no_result],
    except in the last step. *)
Definition run_empty_safe_aggregate (parts : list pyval) (is_last : bool)
    : outcome pyval :=
  let parts2 := filter (fun p => is_no_result p = false) parts in
  match parts2 with
  | [] => if is_last then Ok (py_sum []) else Ok VNoResult
  | _ => match mapM as_hist parts2 with
         | Some hs => Ok (py_sum hs)
         | None => Raise TypeError       (* [sum] over something else *)
         end
  end.

(** Running an aggregation task once the results of its keys are known. *)
Definition run_task (results : gmap key pyval) (t : task) : outcome pyval :=
  match t with
  | (empty_safe_aggregate, [ASum; AKeys ks; ABool is_last]) =>
      match mapM (fun k => results !! k) ks with
      | Some parts => run_empty_safe_aggregate parts is_last
      | None => Raise KeyError
      end
  | _ => Raise TypeError
  end.

(** [PartitionedHistogram.compute()]: the results of [__dask_keys__()],
    passed through [__dask_postcompute__()]. *)
Definition compute_partitioned (results : list pyval) : pyval :=
  _finalize_partitioned_histogram (VList results).

End Tasks.

(** ** The reduction tree as the design describes it

    The description to which the loop of [_reduction] is compared: level
    [0] has the [n] partitions, each level is cut into consecutive groups
    of at most [F] keys, and a group becomes one node of the next level. *)

(** The consecutive group [i] of [range k] with bound [n]. *)
Definition group (n k i : Z) : list Z := seqZ (i * n) (Z.min n (k - i * n)).

(** The quotient rounded up. *)
Definition ceil_div (k n : Z) : Z := (k + n - 1) / n.

(** The number of nodes of level [d]. *)
Fixpoint level_size (F n : Z) (d : nat) : Z :=
  match d with
  | O => n
  | S d' => ceil_div (level_size F n d') F
  end.

(** The name under which the nodes of level [d] are stored. *)
Definition level_name (name fmt : string) (d : nat) : string :=
  match d with
  | O => name
  | S d' => fmt +:+ pretty d'
  end.

(** The node [i] of level [d + 1]: it folds group [i] of level [d]. *)
Definition level_node (F n : Z) (name fmt : string) (d : nat) (i : Z) : task :=
  aggregate_task (level_name name fmt d) (group F (level_size F n d) i) false.

(** The state of the loop of [_reduction] when [d] levels are built. *)
Record levels_built (F n : Z) (name fmt : string) (s : loop_state) (d : nat)
    : Prop := LevelsBuilt {
  lb_d : ls_d s = d;
  lb_k : ls_k s = level_size F n d;
  lb_b : ls_b s = level_name name fmt d;
  lb_nodes : ∀ (d' : nat) (i : Z),
    (d' < d)%nat -> 0 <= i < level_size F n (S d') ->
    ls_dsk s !! KTuple (fmt +:+ pretty d') [i] = Some (level_node F n name fmt d' i);
  lb_dom : ∀ k, is_Some (ls_dsk s !! k) ->
    ∃ (d' : nat) (i : Z),
      (d' < d)%nat ∧ 0 <= i < level_size F n (S d') ∧ k = KTuple (fmt +:+ pretty d') [i];
  lb_more : ∀ d' : nat, (d' < d)%nat -> F < level_size F n d'
}.

(** The low-level graph once [(fmt, 0)] is re-keyed to [fmt]. *)
Definition final_dsk (fmt : string) (s : loop_state) : gmap key task :=
  <[KName fmt := aggregate_task (ls_b s) (range (ls_k s)) true]> (ls_dsk s).

(** The low-level graph behind the layer that an AggHistogram at [a] adds
    to its graph: the layer named like its key. *)
Definition agg_layer (st : store) (a : loc) : option (gmap key task) :=
  match st !! a with
  | Some (OAgg g k _) =>
      match st !! g with
      | Some (OGraph gl _) =>
          match gl !! k ≫= (fun d => st !! d) with
          | Some (ODict dsk) => Some dsk
          | _ => None
          end
      | _ => None
      end
  | _ => None
  end.

(** ** Plain collaborators, to run the code on examples *)

(** A tokenizer that writes its arguments out. *)
Fixpoint show_tokarg (a : tokarg) : string :=
  match a with
  | TokColl n => "<" +:+ n +:+ ">"
  | TokHistref h => "h" +:+ pretty (length (axes h))
  | TokNone => "None"
  | TokSum => "sum"
  | TokInt z => pretty z
  | TokNum q => pretty (Qnum q) +:+ "/" +:+ pretty (Zpos (Qden q))
  | TokObj l => "@" +:+ pretty l
  | TokTuple l => "(" +:+ foldr (fun x s => show_tokarg x +:+ "," +:+ s) ")" l
  end.

Definition plain_tokenizer : Tokenizer :=
  fun args => foldr (fun x s => show_tokarg x +:+ ";" +:+ s) "" args.

(** One task per partition of the first source, on the aligned
    partitions of all sources. *)
Definition plain_partitionwise : Partitionwise :=
  fun f name args histref =>
    Ok (list_to_map
          (map (fun i => (KTuple name [i],
                          (f_blocked f histref,
                           map (fun c => AKey (KTuple (c_name c) [i])) args)))
               (range (from_option c_npartitions 0 (head args))))).

(** Histograms reduced to their total count. *)
Definition counting_accumulator : Accumulator := {|
  Hist := Z;
  fill := fun _ cols _ => from_option (fun c => Z.of_nat (length (nd_data c))) 0 (head cols);
  hist_add := Z.add
|}.


(** A computation that only adds objects to the store: what was there
    before is still there, at the same place and unchanged. *)
Definition extends {A} (m : M A) : Prop :=
  ∀ st r st', m st = (r, st') -> st `prefix_of` st'.

(** * Properties *)

(** ** Lists, ranges and [partition_all] *)

Section Chunks.
Context {A : Type}.
Implicit Types l : list A.

Lemma chunks_nil fuel n : chunks fuel n (@nil A) = [].
Proof. by destruct fuel. Qed.

Lemma chunks_cons fuel n l :
  l ≠ [] -> chunks (S fuel) n l = take n l :: chunks fuel n (drop n l).
Proof. by destruct l. Qed.


(** Group [i] is the slice starting at [i * n]. *)
Lemma chunks_lookup fuel n l i :
  (0 < n)%nat -> (length l <= fuel)%nat -> (i * n < length l)%nat ->
  chunks fuel n l !! i = Some (take n (drop (i * n) l)).
Proof.
  intros Hn. revert l i. induction fuel as [|fuel IH]; intros l i Hl Hi.
  - lia.
  - destruct l as [|x l]; [simpl in Hi; lia |].
    rewrite chunks_cons by done.
    destruct i as [|i]; [done |].
    simpl lookup. rewrite IH.
    + by rewrite drop_drop.
    + rewrite length_drop. simpl in *. lia.
    + rewrite length_drop. simpl in *. lia.
Qed.

(** The number of groups is the quotient of the length, rounded up. *)
Lemma chunks_length fuel n l :
  (0 < n)%nat -> (length l <= fuel)%nat -> l ≠ [] ->
  (n * (length (chunks fuel n l) - 1) < length l <= n * length (chunks fuel n l))%nat.
Proof.
  intros Hn. revert l. induction fuel as [|fuel IH]; intros l Hl Hne.
  - destruct l; [done | simpl in Hl; lia].
  - rewrite chunks_cons by done. simpl length.
    destruct (decide (drop n l = [])) as [Hd|Hd].
    + rewrite Hd, chunks_nil. simpl.
      assert (length (drop n l) = 0%nat) as Hz by (by rewrite Hd).
      rewrite length_drop in Hz.
      destruct l; [done | simpl in *; lia].
    + assert (length (drop n l) <= fuel)%nat as Hf.
      { rewrite length_drop. destruct l; simpl in *; [done | lia]. }
      specialize (IH _ Hf Hd). rewrite length_drop in IH.
      assert (n < length l)%nat.
      { destruct (decide (n < length l)%nat); [done |].
        exfalso. apply Hd, drop_ge. lia. }
      nia.
Qed.

End Chunks.

Lemma drop_seqZ m k (n : nat) :
  drop n (seqZ m k) = seqZ (m + Z.of_nat n) (k - Z.of_nat n).
Proof.
  apply list_eq. intros i. rewrite lookup_drop.
  destruct (decide (Z.of_nat (n + i) < k)).
  - rewrite !lookup_seqZ_lt by lia. f_equal. lia.
  - by rewrite !lookup_seqZ_ge by lia.
Qed.

Lemma take_seqZ m k (n : nat) :
  take n (seqZ m k) = seqZ m (Z.min (Z.of_nat n) k).
Proof.
  apply list_eq. intros i.
  destruct (decide (i < n)%nat).
  - rewrite lookup_take_lt by done.
    destruct (decide (Z.of_nat i < k)).
    + by rewrite !lookup_seqZ_lt by lia.
    + by rewrite !lookup_seqZ_ge by lia.
  - rewrite lookup_take_ge by lia. by rewrite lookup_seqZ_ge by lia.
Qed.

Lemma ceil_div_spec k n c :
  0 < n -> n * (c - 1) < k <= n * c -> ceil_div k n = c.
Proof.
  intros Hn Hc. unfold ceil_div. symmetry.
  apply (Z.div_unique_pos _ _ _ (k + n - 1 - n * c)); lia.
Qed.

Lemma ceil_div_bounds k n :
  0 < n -> n * (ceil_div k n - 1) < k <= n * ceil_div k n.
Proof.
  intros Hn. unfold ceil_div.
  pose proof (Z.div_mod (k + n - 1) n ltac:(lia)).
  pose proof (Z.mod_pos_bound (k + n - 1) n Hn). lia.
Qed.

Lemma partition_all_range_length n k :
  0 < n -> 0 < k ->
  Z.of_nat (length (partition_all n (range k))) = ceil_div k n.
Proof.
  intros Hn Hk. unfold partition_all, range.
  rewrite decide_False by lia. symmetry. apply ceil_div_spec; [done |].
  pose proof (chunks_length (length (seqZ 0 k)) (Z.to_nat n) (seqZ 0 k)) as Hc.
  rewrite length_seqZ in Hc.
  destruct Hc as [Hc1 Hc2]; [lia | lia | |].
  { intros Hnil. apply (f_equal length) in Hnil.
    rewrite length_seqZ in Hnil. simpl in Hnil. lia. }
  rewrite length_seqZ. nia.
Qed.

Lemma partition_all_range_lookup n k (i : nat) :
  0 < n -> Z.of_nat i * n < k ->
  partition_all n (range k) !! i = Some (group n k (Z.of_nat i)).
Proof.
  intros Hn Hi. unfold partition_all, range, group.
  rewrite decide_False by lia.
  rewrite chunks_lookup; [| lia | done | rewrite length_seqZ; nia].
  f_equal. rewrite drop_seqZ, take_seqZ. f_equal; nia.
Qed.


(** ** Level names *)

Lemma string_app_nil_r (s : string) : s +:+ "" = s.
Proof.
  induction s as [|a s IH]; [done |].
  change (String a (s +:+ "") = String a s). by rewrite IH.
Qed.

Lemma pretty_N_go_length x s :
  (String.length s <= String.length (pretty_N_go x s))%nat.
Proof.
  revert s. induction (N.lt_wf_0 x) as [x _ IH]; intros s.
  destruct (decide (x = 0)%N) as [->|Hx]; [by rewrite pretty_N_go_0 |].
  rewrite pretty_N_go_step by lia.
  etrans; [| apply IH, N.div_lt; lia]. simpl. lia.
Qed.

Lemma pretty_nat_nonempty (d : nat) : pretty d ≠ "".
Proof.
  unfold pretty, pretty_nat, pretty, pretty_N.
  case_decide; [done |].
  intros Heq. apply (f_equal String.length) in Heq.
  rewrite pretty_N_go_step in Heq by lia.
  pose proof (pretty_N_go_length (N.of_nat d `div` 10)
    (String (pretty_N_char (N.of_nat d `mod` 10)) "")) as Hlen.
  rewrite Heq in Hlen. simpl in Hlen. lia.
Qed.

(** A level name is never the bare aggregate name. *)
Lemma level_name_ne_fmt (fmt : string) (d : nat) : fmt +:+ pretty d ≠ fmt.
Proof.
  intros Heq. apply (pretty_nat_nonempty d).
  apply (inj (String.app fmt)). by rewrite string_app_nil_r.
Qed.

(** Two levels have different names. *)
Lemma level_name_inj (fmt : string) (d d' : nat) :
  fmt +:+ pretty d = fmt +:+ pretty d' -> d = d'.
Proof. intros Heq. by apply (inj pretty), (inj (String.app fmt)). Qed.

(** ** The [for] loop *)

Lemma enumerate_snoc {A} (l : list A) (x : A) :
  enumerate (l ++ [x]) = enumerate l ++ [(Z.of_nat (length l), x)].
Proof.
  unfold enumerate. rewrite imap_app. simpl.
  by rewrite Nat.add_0_r.
Qed.

Lemma for_loop_spec (c b : string) (groups : list (list Z))
    (dsk : gmap key task) (i0 : option Z) :
  let r := fold_left (for_body c b) (enumerate groups) (dsk, i0) in
  r.2 = match groups with
        | [] => i0
        | _ => Some (Z.of_nat (length groups) - 1)
        end
  ∧ (∀ (j : nat) g, groups !! j = Some g ->
       r.1 !! KTuple c [Z.of_nat j] = Some (aggregate_task b g false))
  ∧ (∀ k, (∀ j : nat, (j < length groups)%nat -> k ≠ KTuple c [Z.of_nat j]) ->
       r.1 !! k = dsk !! k)
  ∧ (∀ k, is_Some (r.1 !! k) ->
       is_Some (dsk !! k) ∨
       ∃ j : nat, (j < length groups)%nat ∧ k = KTuple c [Z.of_nat j]).
Proof.
  induction groups as [|g groups IH] using rev_ind; simpl.
  - split_and!; [done | by intros | done | by left].
  - rewrite enumerate_snoc, fold_left_app. simpl.
    destruct IH as (IH1 & IH2 & IH3 & IH4).
    set (r := fold_left (for_body c b) (enumerate groups) (dsk, i0)) in *.
    rewrite length_app. simpl. split_and!.
    + destruct groups; simpl; f_equal; lia.
    + intros j g' Hj. destruct (decide (j = length groups)) as [->|Hne].
      * rewrite lookup_app_r, Nat.sub_diag in Hj by lia.
        simplify_eq/=. by rewrite lookup_insert_eq.
      * assert (j < length groups)%nat.
        { apply lookup_lt_Some in Hj. rewrite length_app in Hj.
          simpl in Hj. lia. }
        rewrite lookup_app_l in Hj by done.
        rewrite lookup_insert_ne; [by apply IH2 |].
        intros [= Heq]. lia.
    + intros k Hk. rewrite lookup_insert_ne.
      * apply IH3. intros j Hj. apply Hk. lia.
      * intros <-. by apply (Hk (length groups)); [lia |].
    + intros k Hk.
      destruct (decide (k = KTuple c [Z.of_nat (length groups)])) as [->|Hne].
      * right. exists (length groups). split; [lia | done].
      * rewrite lookup_insert_ne in Hk by done.
        destruct (IH4 k Hk) as [?|(j & ? & ?)]; [by left |].
        right. exists j. split; [lia | done].
Qed.

(** ** The [while] loop *)

Lemma ceil_div_pos k n : 0 < n -> 0 < k -> 0 < ceil_div k n.
Proof. intros Hn Hk. pose proof (ceil_div_bounds k n Hn). nia. Qed.

Lemma ceil_div_lt k n : 2 <= n -> n < k -> ceil_div k n < k.
Proof. intros Hn Hk. pose proof (ceil_div_bounds k n ltac:(lia)). nia. Qed.

Section Loop.
Variables (F n : Z) (name fmt : string).

Lemma levels_built_init :
  levels_built F n name fmt
    {| ls_k := n; ls_b := name; ls_d := 0%nat; ls_i := None; ls_dsk := ∅ |} 0.
Proof.
  split; simpl; try done; try (intros; lia).
  intros k [t Ht]. by rewrite lookup_empty in Ht.
Qed.

(** One pass of the loop builds one more level and shrinks [k]. *)
Lemma while_body_spec (s : loop_state) (d : nat) :
  2 <= F -> levels_built F n name fmt s d -> F < ls_k s ->
  ∃ s', while_body F fmt s = Ok s'
        ∧ levels_built F n name fmt s' (S d)
        ∧ 0 < ls_k s' < ls_k s.
Proof.
  intros HF [Hd Hk Hb Hnodes Hdom Hmore] Hlt.
  unfold while_body. rewrite Hd, Hk, Hb.
  set (k := level_size F n d) in *.
  set (groups := partition_all F (range k)).
  assert (Z.of_nat (length groups) = ceil_div k F) as Hlen
    by (apply partition_all_range_length; lia).
  pose proof (ceil_div_pos k F ltac:(lia) ltac:(lia)) as Hpos.
  pose proof (ceil_div_lt k F HF ltac:(lia)) as Hdec.
  pose proof (ceil_div_bounds k F ltac:(lia)) as Hbnd.
  destruct (for_loop_spec (fmt +:+ pretty d) (level_name name fmt d)
              groups (ls_dsk s) (ls_i s)) as (H1 & H2 & H3 & H4).
  set (r := fold_left _ _ _) in *.
  assert (r.2 = Some (Z.of_nat (length groups) - 1)) as ->.
  { rewrite H1. destruct groups; [simpl in Hlen; lia | done]. }
  eexists. split; [done |].
  split; [| simpl; lia].
  split; cbn [ls_d ls_k ls_b ls_dsk ls_i].
  - done.
  - change (level_size F n (S d)) with (ceil_div k F). lia.
  - done.
  - intros d' i Hd' Hi.
    destruct (decide (d' = d)) as [->|Hne].
    + change (level_size F n (S d)) with (ceil_div k F) in Hi.
      destruct (Z_of_nat_complete i ltac:(lia)) as [j ->].
      unfold level_node. fold k.
      apply H2, partition_all_range_lookup; [lia | nia].
    + rewrite H3; [apply Hnodes; [lia | done] |].
      intros j _ [= Heq]. by apply level_name_inj in Heq.
  - intros key Hkey. destruct (H4 key Hkey) as [Hold|(j & Hj & ->)].
    + destruct (Hdom key Hold) as (d' & i & ? & ? & ?).
      exists d', i. split_and!; try done; lia.
    + exists d, (Z.of_nat j).
      change (level_size F n (S d)) with (ceil_div k F).
      split_and!; try done; lia.
  - intros d' Hd'. destruct (decide (d' = d)) as [->|Hne]; [fold k; lia |].
    apply Hmore. lia.
Qed.

(** With [k] passes at hand the loop ends, leaving at most [F] nodes. *)
Lemma while_loop_spec (fuel : nat) (s : loop_state) (d : nat) :
  2 <= F ∨ ls_k s <= F ->
  levels_built F n name fmt s d ->
  ls_k s <= Z.of_nat fuel ->
  ∃ s' D, while_loop fuel F fmt s = Ok s'
          ∧ levels_built F n name fmt s' D
          ∧ ls_k s' <= F ∧ (d <= D)%nat
          ∧ (D = d -> s' = s).
Proof.
  revert s d. induction fuel as [|fuel IH]; intros s d HF Hinv Hfuel.
  - simpl. rewrite decide_False by lia.
    exists s, d. split_and!; [done | done | lia | done | done].
  - simpl. case_decide as Hgt.
    + assert (2 <= F) as HF2 by lia.
      destruct (while_body_spec s d HF2 Hinv ltac:(lia)) as (s' & -> & Hinv' & Hk').
      destruct (IH s' (S d) (or_introl HF2) Hinv' ltac:(lia))
        as (s'' & D & -> & ? & ? & ? & ?).
      exists s'', D. split_and!; [done | done | done | lia | lia].
    + exists s, d. split_and!; [done | done | lia | done | done].
Qed.

End Loop.

(** ** The depth of the tree *)



(** ** Running [_reduction] *)

Lemma while_loop_done fuel F fmt s :
  ls_k s <= F -> while_loop fuel F fmt s = Ok s.
Proof. intros Hk. destruct fuel; simpl; by rewrite decide_False by lia. Qed.

Section Reduction.
Context `{Tokenizer}.

Lemma levels_built_no_fmt0 F n name fmt s D :
  levels_built F n name fmt s D -> ls_dsk s !! KTuple fmt [0] = None.
Proof.
  intros Hinv. apply eq_None_not_Some. intros Hsome.
  destruct (lb_dom _ _ _ _ _ _ Hinv _ Hsome) as (d' & i & _ & _ & [= Heq _]).
  symmetry in Heq. by apply level_name_ne_fmt in Heq.
Qed.

Lemma reduction_dsk_spec fuel name n F :
  2 <= F ∨ n <= F -> n <= Z.of_nat fuel ->
  let fmt := aggregate_name name F in
  ∃ s D, reduction_dsk fuel name n F
           = Ok (s, <[KTuple fmt [0] := aggregate_task (ls_b s) (range (ls_k s)) true]>
                      (ls_dsk s))
         ∧ levels_built F n name fmt s D
         ∧ ls_k s <= F.
Proof.
  intros HF Hfuel fmt. unfold reduction_dsk. fold fmt.
  destruct (while_loop_spec F n name fmt fuel
              {| ls_k := n; ls_b := name; ls_d := 0%nat; ls_i := None; ls_dsk := ∅ |}
              0 HF (levels_built_init F n name fmt) Hfuel)
    as (s & D & -> & Hinv & Hk & _ & _).
  by exists s, D.
Qed.

(** What a successful run of [_reduction] leaves in the store. *)
Lemma reduction_run fuel st ph g name n href gl gd split s dsk1 :
  st !! ph = Some (OPart g name n href) ->
  st !! g = Some (OGraph gl gd) ->
  let F := effective_split split n in
  let fmt := aggregate_name name F in
  reduction_dsk fuel name n F = Ok (s, dsk1) ->
  ∀ t, dsk1 !! KTuple fmt [0] = Some t ->
  _reduction fuel ph split st
  = (Ok (length st + 2)%nat,
     st ++ [ODict (<[KName fmt := t]> (delete (KTuple fmt [0]) dsk1));
            OGraph (<[fmt := length st]> gl) (<[fmt := {[name]}]> gd);
            OAgg (length st + 1)%nat fmt href]).
Proof.
  intros Hph Hg F fmt Hdsk t Ht.
  assert (ph < length st)%nat by (by eapply lookup_lt_Some).
  assert (g < length st)%nat by (by eapply lookup_lt_Some).
  unfold _reduction, mbind, M_bind, get_part. rewrite Hph.
  fold F fmt. unfold lift. rewrite Hdsk. simpl.
  unfold pop_into. rewrite Ht. unfold alloc at 1.
  unfold from_collections, _from_collection, mbind, M_bind, get_store, lift,
    read_graph.
  rewrite lookup_app_l, Hph by done. simpl.
  rewrite lookup_app_l, Hg by done. unfold alloc.
  rewrite !length_app. simpl.
  rewrite <- !app_assoc, Nat.add_1_r. simpl.
  do 2 f_equal. lia.
Qed.

Lemma agg_layer_reduction (st : store) gl gd name fmt href dsk :
  agg_layer (st ++ [ODict dsk;
                    OGraph (<[fmt := length st]> gl) (<[fmt := {[name]}]> gd);
                    OAgg (length st + 1)%nat fmt href]) (length st + 2)
  = Some dsk.
Proof.
  unfold agg_layer.
  rewrite lookup_app_r by lia.
  replace (length st + 2 - length st)%nat with 2%nat by lia. simpl.
  rewrite lookup_app_r by lia.
  replace (length st + 1 - length st)%nat with 1%nat by lia. simpl.
  rewrite lookup_insert_eq. simpl.
  rewrite lookup_app_r by lia. by rewrite Nat.sub_diag.
Qed.

(** A run of [_reduction] with enough passes allowed, all in one. *)
Lemma reduction_total fuel st ph g name n href gl gd split :
  st !! ph = Some (OPart g name n href) ->
  st !! g = Some (OGraph gl gd) ->
  let F := effective_split split n in
  let fmt := aggregate_name name F in
  2 <= F ∨ n <= F -> n <= Z.of_nat fuel ->
  ∃ s D st',
    _reduction fuel ph split st = (Ok (length st + 2)%nat, st')
    ∧ st `prefix_of` st'
    ∧ st' !! (length st + 2)%nat = Some (OAgg (length st + 1)%nat fmt href)
    ∧ agg_layer st' (length st + 2) = Some (final_dsk fmt s)
    ∧ levels_built F n name fmt s D
    ∧ ls_k s <= F.
Proof.
  intros Hph Hg F fmt HF Hfuel.
  destruct (reduction_dsk_spec fuel name n F HF Hfuel) as (s & D & Hdsk & Hinv & Hk).
  fold fmt in Hdsk.
  pose proof (reduction_run fuel st ph g name n href gl gd split s _
                Hph Hg Hdsk _ (lookup_insert_eq _ _ _)) as Hrun.
  rewrite delete_insert_eq in Hrun.
  rewrite delete_id in Hrun by (by eapply levels_built_no_fmt0).
  eexists s, D, _. split; [exact Hrun |].
  split_and!.
  - by apply prefix_app_r.
  - rewrite lookup_app_r by lia.
    by replace (length st + 2 - length st)%nat with 2%nat by lia.
  - apply agg_layer_reduction.
  - done.
  - done.
Qed.

End Reduction.

(** ** Progress of the loop *)

(** A pass over a non-empty level leaves the rounded-up quotient. *)
Lemma while_body_ok F fmt s :
  0 < F -> 0 < ls_k s ->
  ∃ s', while_body F fmt s = Ok s' ∧ ls_k s' = ceil_div (ls_k s) F.
Proof.
  intros HF Hk. unfold while_body.
  pose proof (partition_all_range_length F (ls_k s) HF Hk) as Hlen.
  pose proof (ceil_div_pos (ls_k s) F HF Hk) as Hpos.
  destruct (for_loop_spec (fmt +:+ pretty (ls_d s)) (ls_b s)
              (partition_all F (range (ls_k s))) (ls_dsk s) (ls_i s))
    as (H1 & _).
  rewrite H1.
  destruct (partition_all F (range (ls_k s))); [simpl in Hlen; lia |].
  eexists. split; [done |]. simpl in *. lia.
Qed.

Lemma while_body_decreases F fmt s :
  2 <= F -> F < ls_k s ->
  ∃ s', while_body F fmt s = Ok s' ∧ 0 < ls_k s' < ls_k s.
Proof.
  intros HF Hk.
  destruct (while_body_ok F fmt s ltac:(lia) ltac:(lia)) as (s' & Hs' & Hk').
  exists s'. split; [done |]. rewrite Hk'.
  pose proof (ceil_div_pos (ls_k s) F ltac:(lia) ltac:(lia)).
  pose proof (ceil_div_lt (ls_k s) F HF Hk). lia.
Qed.

(** With a bound of one a level of two or more nodes never shrinks. *)
Lemma while_loop_split_one fuel fmt s :
  2 <= ls_k s -> while_loop fuel 1 fmt s = NoFuel.
Proof.
  revert s. induction fuel as [|fuel IH]; intros s Hk; simpl.
  - by rewrite decide_True by lia.
  - rewrite decide_True by lia.
    destruct (while_body_ok 1 fmt s ltac:(lia) ltac:(lia)) as (s' & -> & Hk').
    apply IH. rewrite Hk'. unfold ceil_div.
    replace (ls_k s + 1 - 1) with (ls_k s) by lia. rewrite Z.div_1_r. lia.
Qed.



(** ** Running [hlg._reduction] *)

Lemma hlg_reduction_run `{Tokenizer} fuel st ph g name n href gl gd split s dsk1 :
  st !! ph = Some (OPart g name n href) ->
  st !! g = Some (OGraph gl gd) ->
  let F := effective_split split n in
  let fmt := aggregate_name name F in
  reduction_dsk fuel name n F = Ok (s, dsk1) ->
  ∀ t, dsk1 !! KTuple fmt [0] = Some t ->
  hlg._reduction fuel ph split st
  = (Ok (length st + 2)%nat,
     st ++ [ODict (<[KName fmt := t]> (delete (KTuple fmt [0]) dsk1));
            OGraph (<[fmt := length st]> gl) (<[fmt := {[name]}]> gd);
            OAgg (length st + 1)%nat fmt None]).
Proof.
  intros Hph Hg F fmt Hdsk t Ht.
  assert (ph < length st)%nat by (by eapply lookup_lt_Some).
  assert (g < length st)%nat by (by eapply lookup_lt_Some).
  unfold hlg._reduction, mbind, M_bind, get_part. rewrite Hph.
  fold F fmt. unfold lift. rewrite Hdsk. simpl.
  unfold alloc at 1.
  unfold from_collections, _from_collection, mbind, M_bind, get_store, lift,
    read_graph.
  rewrite lookup_app_l, Hph by done. simpl.
  rewrite lookup_app_l, Hg by done. unfold alloc at 1.
  unfold pop_into. rewrite Ht. unfold update, alloc.
  rewrite length_insert, !length_app. simpl.
  rewrite <- !app_assoc. simpl.
  rewrite insert_app_r_alt, Nat.sub_diag by lia. simpl.
  rewrite <- app_assoc. simpl.
  do 2 f_equal. lia.
Qed.

Lemma hlg_reduction_total `{Tokenizer} fuel st ph g name n href gl gd split :
  st !! ph = Some (OPart g name n href) ->
  st !! g = Some (OGraph gl gd) ->
  let F := effective_split split n in
  let fmt := aggregate_name name F in
  2 <= F ∨ n <= F -> n <= Z.of_nat fuel ->
  ∃ s D st',
    hlg._reduction fuel ph split st = (Ok (length st + 2)%nat, st')
    ∧ st' !! (length st + 2)%nat = Some (OAgg (length st + 1)%nat fmt None)
    ∧ agg_layer st' (length st + 2) = Some (final_dsk fmt s)
    ∧ levels_built F n name fmt s D.
Proof.
  intros Hph Hg F fmt HF Hfuel.
  destruct (reduction_dsk_spec fuel name n F HF Hfuel) as (s & D & Hdsk & Hinv & Hk).
  fold fmt in Hdsk.
  pose proof (hlg_reduction_run fuel st ph g name n href gl gd split s _
                Hph Hg Hdsk _ (lookup_insert_eq _ _ _)) as Hrun.
  rewrite delete_insert_eq in Hrun.
  rewrite delete_id in Hrun by (by eapply levels_built_no_fmt0).
  eexists s, D, _. split; [exact Hrun |].
  split_and!.
  - rewrite lookup_app_r by lia.
    by replace (length st + 2 - length st)%nat with 2%nat by lia.
  - apply agg_layer_reduction.
  - done.
Qed.

Lemma final_dsk_keys F n name fmt s D :
  levels_built F n name fmt s D ->
  is_Some (final_dsk fmt s !! KName fmt) ∧ final_dsk fmt s !! KTuple fmt [0] = None.
Proof.
  intros Hinv. unfold final_dsk. split.
  - rewrite lookup_insert_eq. by eexists.
  - rewrite lookup_insert_ne by done. by eapply levels_built_no_fmt0.
Qed.

(** ** Termination and the key of the result *)

(** C10.  For a PartitionedHistogram of [n >= 0] partitions and a bound
    [split_every] that is [None] (4), [False] ([n]) or an integer of at
    least 2, [_reduction] returns once its loop is allowed [n] passes:
    with a bound of at least 2 every pass of the loop leaves fewer nodes
    than it found, and with a smaller bound (only from [False]) the loop is
    not entered.  The result, for core.py and for hlg.py alike, is an
    AggHistogram whose only key is the bare aggregate name, stored under
    that name in its layer, the task [(name, 0)] having been re-keyed. *)
Theorem reduction_terminates `{Tokenizer} (st : store) (ph g : loc)
    (name : string) (n : Z) (href : option Histref)
    (gl : gmap string loc) (gd : gmap string (gset string))
    (split : split_arg) (fuel : nat) :
  st !! ph = Some (OPart g name n href) ->
  st !! g = Some (OGraph gl gd) ->
  0 <= n ->
  (split = SplitNone ∨ split = SplitFalse ∨ ∃ m, split = SplitInt m ∧ 2 <= m) ->
  n <= Z.of_nat fuel ->
  let F := effective_split split n in
  let fmt := aggregate_name name F in
  (2 <= F ∨ n <= F)
  ∧ (2 <= F -> ∀ s, F < ls_k s ->
       ∃ s', while_body F fmt s = Ok s' ∧ 0 < ls_k s' < ls_k s)
  ∧ (∃ a st' g' dsk,
       _reduction fuel ph split st = (Ok a, st')
       ∧ st' !! a = Some (OAgg g' fmt href)
       ∧ dask_keys (OAgg g' fmt href) = [KName fmt]
       ∧ agg_layer st' a = Some dsk
       ∧ is_Some (dsk !! KName fmt)
       ∧ dsk !! KTuple fmt [0] = None)
  ∧ (∃ a st' g' dsk,
       hlg._reduction fuel ph split st = (Ok a, st')
       ∧ st' !! a = Some (OAgg g' fmt None)
       ∧ dask_keys (OAgg g' fmt None) = [KName fmt]
       ∧ agg_layer st' a = Some dsk
       ∧ is_Some (dsk !! KName fmt)
       ∧ dsk !! KTuple fmt [0] = None).
Proof.
  intros Hph Hg Hn Hsplit Hfuel F fmt.
  assert (2 <= F ∨ n <= F) as HF.
  { subst F. destruct Hsplit as [->|[->|(m & -> & Hm)]]; simpl; lia. }
  split; [done |]. split.
  { intros HF2 s Hk. by apply while_body_decreases. }
  split.
  - destruct (reduction_total fuel st ph g name n href gl gd split Hph Hg HF Hfuel)
      as (s & D & st' & Hrun & _ & Hagg & Hlayer & Hinv & _).
    destruct (final_dsk_keys _ _ _ _ _ _ Hinv).
    by eexists _, st', _, _.
  - destruct (hlg_reduction_total fuel st ph g name n href gl gd split Hph Hg HF Hfuel)
      as (s & D & st' & Hrun & Hagg & Hlayer & Hinv).
    destruct (final_dsk_keys _ _ _ _ _ _ Hinv).
    by eexists _, st', _, _.
Qed.

Lemma reduction_terminates_witness :
  let st := [OGraph ∅ ∅; OPart 0%nat "x" 20 None] in
  ∃ a st' g' dsk,
    @_reduction plain_tokenizer 20 1%nat SplitNone st = (Ok a, st')
    ∧ st' !! a = Some (OAgg g' (@aggregate_name plain_tokenizer "x" 4) None)
    ∧ dask_keys (OAgg g' (@aggregate_name plain_tokenizer "x" 4) None)
      = [KName (@aggregate_name plain_tokenizer "x" 4)]
    ∧ agg_layer st' a = Some dsk
    ∧ is_Some (dsk !! KName (@aggregate_name plain_tokenizer "x" 4))
    ∧ dsk !! KTuple (@aggregate_name plain_tokenizer "x" 4) [0] = None.
Proof.
  intros st.
  refine (proj1 (proj2 (proj2
    (@reduction_terminates plain_tokenizer st 1%nat 0%nat "x" 20 None ∅ ∅
       SplitNone 20%nat _ _ _ _ _)))).
  - reflexivity.
  - reflexivity.
  - lia.
  - by left.
  - lia.
Defined.

(** When the partitions do not exceed the bound the loop is skipped, and
    the graph is the single final aggregation, whatever the bound is. *)
Lemma reduction_no_loop `{Tokenizer} fuel st ph g name n href gl gd split :
  st !! ph = Some (OPart g name n href) ->
  st !! g = Some (OGraph gl gd) ->
  let F := effective_split split n in
  let fmt := aggregate_name name F in
  n <= F ->
  ∃ st',
    _reduction fuel ph split st = (Ok (length st + 2)%nat, st')
    ∧ st' !! (length st + 2)%nat = Some (OAgg (length st + 1)%nat fmt href)
    ∧ agg_layer st' (length st + 2)
      = Some {[KName fmt := aggregate_task name (range n) true]}.
Proof.
  intros Hph Hg F fmt Hle.
  assert (reduction_dsk fuel name n F
          = Ok ({| ls_k := n; ls_b := name; ls_d := 0%nat; ls_i := None; ls_dsk := ∅ |},
                <[KTuple fmt [0] := aggregate_task name (range n) true]> ∅)) as Hdsk.
  { unfold reduction_dsk. by rewrite while_loop_done. }
  pose proof (reduction_run fuel st ph g name n href gl gd split _ _
                Hph Hg Hdsk _ (lookup_insert_eq _ _ _)) as Hrun.
  rewrite delete_insert_eq, delete_empty, insert_empty in Hrun.
  eexists. split; [exact Hrun |]. split.
  - rewrite lookup_app_r by lia.
    by replace (length st + 2 - length st)%nat with 2%nat by lia.
  - apply agg_layer_reduction.
Qed.

(** With a bound of one and two or more partitions, no number of passes
    is enough. *)
Lemma reduction_split_one_no_answer `{Tokenizer} fuel st ph g name n href :
  st !! ph = Some (OPart g name n href) -> 2 <= n ->
  (_reduction fuel ph (SplitInt 1) st).1 = NoFuel.
Proof.
  intros Hph Hn. unfold _reduction, mbind, M_bind, get_part. rewrite Hph.
  simpl. unfold lift, reduction_dsk.
  by rewrite while_loop_split_one.
Qed.

(** C1 (amended).  [_reduction] does not validate [split_every]: a bound
    of at most 1 that the partition count does not exceed is accepted, and
    the call returns, for any number of passes allowed, an AggHistogram
    whose layer is the single final aggregation over the partitions. *)
Theorem reduction_small_split_accepted `{Tokenizer} (st : store) (ph g : loc)
    (name : string) (n : Z) (href : option Histref)
    (gl : gmap string loc) (gd : gmap string (gset string))
    (F : Z) (fuel : nat) :
  st !! ph = Some (OPart g name n href) ->
  st !! g = Some (OGraph gl gd) ->
  F <= 1 -> n <= F ->
  let fmt := aggregate_name name F in
  ∃ st',
    _reduction fuel ph (SplitInt F) st = (Ok (length st + 2)%nat, st')
    ∧ st' !! (length st + 2)%nat = Some (OAgg (length st + 1)%nat fmt href)
    ∧ agg_layer st' (length st + 2)
      = Some {[KName fmt := aggregate_task name (range n) true]}.
Proof.
  intros Hph Hg _ Hle fmt.
  exact (reduction_no_loop fuel st ph g name n href gl gd (SplitInt F) Hph Hg Hle).
Qed.

Lemma reduction_small_split_accepted_witness :
  let st := [OGraph ∅ ∅; OPart 0%nat "x" 1 None] in
  let fmt := @aggregate_name plain_tokenizer "x" 1 in
  ∃ st',
    @_reduction plain_tokenizer 0 1%nat (SplitInt 1) st = (Ok 4%nat, st')
    ∧ st' !! 4%nat = Some (OAgg 3%nat fmt None)
    ∧ agg_layer st' 4%nat
      = Some {[KName fmt := aggregate_task "x" (range 1) true]}.
Proof.
  intros st fmt.
  apply (@reduction_small_split_accepted plain_tokenizer st 1%nat 0%nat "x" 1
           None ∅ ∅ 1 0%nat).
  - reflexivity.
  - reflexivity.
  - lia.
  - lia.
Defined.

(** C1, as stated, fails: one partition and [split_every = 1] are not
    rejected, the call returns a collection. *)
Lemma reduction_split_one_returns :
  (@_reduction plain_tokenizer 0 1%nat (SplitInt 1)
     [OGraph ∅ ∅; OPart 0%nat "x" 1 None]).1 = Ok 4%nat.
Proof. vm_compute. reflexivity. Qed.

(** ** The single partition *)

Lemma run_single_aggregate `{Accumulator} (results : gmap key pyval)
    (name : string) (i : Z) (h : Hist) :
  results !! KTuple name [i] = Some (VHist h) ->
  run_task results (aggregate_task name [i] true) = Ok (VHist h).
Proof. intros Hr. unfold run_task, aggregate_task. simpl. by rewrite Hr. Qed.

(** C3 (amended).  For one partition the loop of [_reduction] is skipped
    and the layer of the result holds exactly one task, under the bare
    aggregate name: the final combine-node
    [(empty_safe_aggregate, sum, [(name, 0)], True)] over the single
    partition.  Run on the result [h] of that partition it yields [h]. *)
Theorem reduction_single_partition `{Tokenizer} `{Accumulator}
    (st : store) (ph g : loc) (name : string) (href : option Histref)
    (gl : gmap string loc) (gd : gmap string (gset string))
    (split : split_arg) (fuel : nat) :
  st !! ph = Some (OPart g name 1 href) ->
  st !! g = Some (OGraph gl gd) ->
  1 <= effective_split split 1 ->
  let fmt := aggregate_name name (effective_split split 1) in
  ∃ st',
    _reduction fuel ph split st = (Ok (length st + 2)%nat, st')
    ∧ st' !! (length st + 2)%nat = Some (OAgg (length st + 1)%nat fmt href)
    ∧ agg_layer st' (length st + 2)
      = Some {[KName fmt := aggregate_task name [0] true]}
    ∧ ∀ (results : gmap key pyval) (h : Hist),
        results !! KTuple name [0] = Some (VHist h) ->
        run_task results (aggregate_task name [0] true) = Ok (VHist h).
Proof.
  intros Hph Hg Hle fmt.
  destruct (reduction_no_loop fuel st ph g name 1 href gl gd split Hph Hg Hle)
    as (st' & Hrun & Hagg & Hlayer).
  exists st'. split_and!; [done | done | done |].
  intros results h. apply run_single_aggregate.
Qed.

Lemma reduction_single_partition_witness :
  let st := [OGraph ∅ ∅; OPart 0%nat "x" 1 None] in
  let fmt := @aggregate_name plain_tokenizer "x" 4 in
  ∃ st',
    @_reduction plain_tokenizer 0 1%nat SplitNone st = (Ok 4%nat, st')
    ∧ st' !! 4%nat = Some (OAgg 3%nat fmt None)
    ∧ agg_layer st' 4%nat = Some {[KName fmt := aggregate_task "x" [0] true]}
    ∧ ∀ (results : gmap key (@pyval counting_accumulator)) (h : Z),
        results !! KTuple "x" [0] = Some (@VHist counting_accumulator h) ->
        @run_task counting_accumulator results (aggregate_task "x" [0] true)
        = Ok (@VHist counting_accumulator h).
Proof.
  intros st fmt.
  apply (@reduction_single_partition plain_tokenizer counting_accumulator st
           1%nat 0%nat "x" None ∅ ∅ SplitNone 0%nat).
  - reflexivity.
  - reflexivity.
  - simpl. lia.
Defined.

(** C3, as stated, fails: the graph built for one partition contains a
    combine-node. *)
Lemma single_partition_has_combine_node :
  let r := @_reduction plain_tokenizer 0 1%nat SplitNone
             [OGraph ∅ ∅; OPart 0%nat "x" 1 None] in
  r.1 = Ok 4%nat
  ∧ agg_layer r.2 4%nat ≫= (fun dsk => dsk !! KName "hist-aggregate-<x>;sum;4;")
    = Some (empty_safe_aggregate, [ASum; AKeys [KTuple "x" [0]]; ABool true]).
Proof. vm_compute. split; reflexivity. Qed.

(** ** The shape of the tree *)







(** Twenty partitions with a bound of four: two passes of the loop and
    the final node, three combine levels. *)
Example reduction_depth_20_4 :
  match @reduction_dsk plain_tokenizer 20 "x" 20 4 with
  | Ok (s, _) => Some (ls_d s, ls_k s)
  | _ => None
  end = Some (2%nat, 2).
Proof. vm_compute. reflexivity. Qed.

(** ** Computations that only allocate *)

Lemma extends_ret {A} (a : A) : extends (mret a).
Proof. intros st r st' [= <- <-]. done. Qed.

Lemma extends_raise {A} (e : exn) : extends (@raise A e).
Proof. intros st r st' [= <- <-]. done. Qed.

Lemma extends_lift {A} (o : outcome A) : extends (lift o).
Proof. intros st r st' [= <- <-]. done. Qed.

Lemma extends_get_store : extends get_store.
Proof. intros st r st' [= <- <-]. done. Qed.

Lemma extends_alloc (o : obj) : extends (alloc o).
Proof. intros st r st' [= <- <-]. by apply prefix_app_r. Qed.

Lemma extends_getattr_histref (a : pyarg) : extends (getattr_histref a).
Proof.
  intros st r st' Hrun. unfold getattr_histref in Hrun.
  repeat case_match; by simplify_eq.
Qed.

Lemma extends_bind {A B} (m : M A) (f : A -> M B) :
  extends m -> (∀ a, extends (f a)) -> extends (m ≫= f).
Proof.
  intros Hm Hf st r st' Hrun. unfold mbind, M_bind in Hrun.
  destruct (m st) as [[a| e |] st1] eqn:Hm1.
  - etrans; [by eapply Hm | by eapply Hf].
  - simplify_eq. by eapply Hm.
  - simplify_eq. by eapply Hm.
Qed.

Lemma extends_try {A} (m h : M A) :
  extends m -> extends h -> extends (try_except_AttributeError m h).
Proof.
  intros Hm Hh st r st' Hrun. unfold try_except_AttributeError in Hrun.
  destruct (m st) as [[a| e |] st1] eqn:Hm1.
  - simplify_eq. by eapply Hm.
  - destruct e; try (simplify_eq; by eapply Hm).
    etrans; [by eapply Hm | by eapply Hh].
  - simplify_eq. by eapply Hm.
Qed.

Lemma extends_from_collections name layer deps :
  extends (from_collections name layer deps).
Proof.
  assert (∀ c, extends (_from_collection name layer c)) as Hone.
  { intros c. unfold _from_collection.
    apply extends_bind; [apply extends_get_store |]. intros st0.
    apply extends_bind; [apply extends_lift |]. intros [[n gl] gd].
    apply extends_alloc. }
  assert (extends (st ← get_store;
                   r ← lift (fold_left (merge_dependency name st)
                               (remove_dups deps)
                               (Ok ({[name := layer]}, {[name := ∅]})));
                   alloc (OGraph r.1 r.2))) as Hmany.
  { apply extends_bind; [apply extends_get_store |]. intros st0.
    apply extends_bind; [apply extends_lift |]. intros r.
    apply extends_alloc. }
  unfold from_collections. destruct deps as [|c [|c' deps]]; auto.
Qed.

Lemma extends_BinaryOp_call `{Tokenizer} (op : BinaryOp) (a b : pyarg) :
  extends (BinaryOp_call op a b).
Proof.
  unfold BinaryOp_call.
  apply extends_bind; [apply extends_get_store |]. intros st0.
  apply extends_bind; [apply extends_alloc |]. intros llg.
  apply extends_bind; [apply extends_from_collections |]. intros g.
  apply extends_bind.
  - apply extends_try; apply extends_getattr_histref.
  - intros ref. apply extends_alloc.
Qed.

Lemma from_collections_ok name layer deps st g st' :
  from_collections name layer deps st = (Ok g, st') ->
  g = length st ∧ ∃ gl gd, st' = st ++ [OGraph gl gd].
Proof.
  unfold from_collections, _from_collection, mbind, M_bind, get_store, lift,
    alloc.
  intros Hfc. repeat case_match; simplify_eq; split; by eauto.
Qed.

(** The attribute [histref] of objects that were there before. *)
Lemma getattr_histref_frame (x : pyarg) (st : store) d gl gd :
  getattr_histref x (st ++ [ODict d; OGraph gl gd])
  = ((getattr_histref x st).1, st ++ [ODict d; OGraph gl gd]).
Proof.
  destruct x as [l|q]; simpl; [| done].
  destruct (decide (l < length st)%nat) as [Hl|Hl].
  - rewrite lookup_app_l by done. by repeat case_match.
  - rewrite (lookup_ge_None_2 st l) by lia.
    rewrite lookup_app_r by lia.
    destruct (l - length st)%nat as [|[|?]]; done.
Qed.

Lemma getattr_histref_store (x : pyarg) (st : store) :
  (getattr_histref x st).2 = st.
Proof. unfold getattr_histref. by repeat case_match. Qed.

(** A successful call returns a new AggHistogram around a new graph; its
    histref is the one of [a], or the one of [b] when [a] has none. *)
Lemma BinaryOp_call_new `{Tokenizer} (op : BinaryOp) (a b : pyarg) st r st' :
  BinaryOp_call op a b st = (Ok r, st') ->
  (length st <= r)%nat
  ∧ ∃ g ref, (length st <= g)%nat
      ∧ st' !! r = Some (OAgg g (binary_name op (tok st a) (tok st b)) (Some ref))
      ∧ ((getattr_histref a st).1 = Ok ref
         ∨ ((getattr_histref a st).1 = Raise AttributeError
            ∧ (getattr_histref b st).1 = Ok ref)).
Proof.
  unfold BinaryOp_call, mbind, M_bind, get_store. unfold alloc at 1.
  set (name := binary_name op (tok st a) (tok st b)).
  destruct (from_collections name (length st) _ _) as [[g| e |] st2] eqn:Hfc;
    [| by intros [=] | by intros [=]].
  apply from_collections_ok in Hfc as (-> & gl & gd & ->).
  rewrite <- app_assoc. simpl.
  unfold try_except_AttributeError. rewrite !getattr_histref_frame.
  assert (∀ ref : Histref,
    alloc (OAgg (length (st ++ [ODict {[KName name := (bo_func op,
             [match tok st a with TokColl n => AKey (KName n) | _ => ALit a end;
              match tok st b with TokColl n => AKey (KName n) | _ => ALit b end])]}]))
            name (Some ref))
      (st ++ [ODict {[KName name := (bo_func op,
             [match tok st a with TokColl n => AKey (KName n) | _ => ALit a end;
              match tok st b with TokColl n => AKey (KName n) | _ => ALit b end])]};
              OGraph gl gd]) = (Ok r, st') ->
    (length st <= r)%nat
    ∧ ∃ g ref', (length st <= g)%nat
        ∧ st' !! r = Some (OAgg g name (Some ref')) ∧ ref' = ref) as Halloc.
  { intros ref. unfold alloc. intros [= <- <-].
    rewrite !length_app. simpl. split; [lia |].
    eexists _, ref. split_and!; [| | done].
    2:{ rewrite lookup_app_r; rewrite !length_app; simpl; [| lia].
        by rewrite Nat.sub_diag. }
    lia. }
  destruct (getattr_histref a st).1 as [ref| e |] eqn:Ha.
  - intros Hrun. destruct (Halloc ref Hrun) as (? & g & ref' & ? & ? & ->).
    split; [done |]. exists g, ref. split_and!; [done | done | by left].
  - destruct e; try by intros [=].
    destruct (getattr_histref b st).1 as [ref| e |] eqn:Hb;
      [| by intros [=] | by intros [=]].
    intros Hrun. destruct (Halloc ref Hrun) as (? & g & ref' & ? & ? & ->).
    split; [done |]. exists g, ref. split_and!; [done | done | by right].
  - by intros [=].
Qed.

(** Every operator spelling is a call of a [BinaryOp] on [self]. *)
Lemma operator_methods_call `{Tokenizer} (m : loc -> pyarg -> M loc) :
  m ∈ operator_methods ->
  ∃ op, op ∈ [_iadd; _imul; _itruediv]
        ∧ ∀ self other, m self other = BinaryOp_call op (PRef self) other.
Proof.
  unfold operator_methods. rewrite !elem_of_cons, elem_of_nil.
  intros [->|[->|[->|[->|[->|[->|[->|[->|[->|[->|[]]]]]]]]]]].
  all: first [ exists _iadd; split; [set_solver | done]
             | exists _imul; split; [set_solver | done]
             | exists _itruediv; split; [set_solver | done] ].
Qed.

(** C7.  Whatever operator spelling of AggHistogram is evaluated on
    [self] and [other] ([+], [*], [/], reflected or in place), every
    object that existed before is unchanged afterwards; in particular
    [self] still has its graph and its key, and that graph is the same
    object with the same content.  A successful evaluation returns a new
    AggHistogram around a new graph. *)
Theorem operators_do_not_mutate `{Tokenizer} (m : loc -> pyarg -> M loc)
    (st : store) (self : loc) (other : pyarg) :
  m ∈ operator_methods ->
  let res := m self other st in
  (∀ l : loc, (l < length st)%nat -> res.2 !! l = st !! l)
  ∧ (∀ g k h, st !! self = Some (OAgg g k h) ->
       res.2 !! self = Some (OAgg g k h)
       ∧ ∀ gl gd, st !! g = Some (OGraph gl gd) ->
           res.2 !! g = Some (OGraph gl gd)
           ∧ ∀ n d, gl !! n = Some d -> (d < length st)%nat ->
               res.2 !! d = st !! d)
  ∧ (∀ r, res.1 = Ok r ->
       (length st <= r)%nat
       ∧ ∃ g' k' h', res.2 !! r = Some (OAgg g' k' (Some h'))
                     ∧ (length st <= g')%nat).
Proof.
  intros Hm res.
  destruct (operator_methods_call m Hm) as (op & _ & Hcall).
  subst res. rewrite Hcall.
  destruct (BinaryOp_call op (PRef self) other st) as [r st'] eqn:Hrun.
  pose proof (extends_BinaryOp_call _ _ _ _ _ _ Hrun) as [ext ->].
  assert (∀ l : loc, (l < length st)%nat -> (st ++ ext) !! l = st !! l) as Hframe.
  { intros l Hl. by apply lookup_app_l. }
  simpl. split; [done |]. split.
  - intros g k h Hself. split.
    { by apply lookup_app_l_Some. }
    intros gl gd Hg. split.
    { by apply lookup_app_l_Some. }
    intros n d _ Hd. by apply Hframe.
  - intros a ->.
    destruct (BinaryOp_call_new _ _ _ _ _ _ Hrun) as (Ha & g' & ref & Hg' & Hnew & _).
    split; [done |]. by eexists g', _, ref.
Qed.

Lemma operators_do_not_mutate_witness :
  let href := MkHistref [Axis 10 []] Double in
  let st := [ODict ∅; OGraph {["h" := 0%nat]} {["h" := ∅]};
             OAgg 1%nat "h" (Some href)] in
  let res := @__iadd__ plain_tokenizer 2%nat (PNum 2) st in
  (∀ l : loc, (l < length st)%nat -> res.2 !! l = st !! l)
  ∧ (∀ g k h, st !! 2%nat = Some (OAgg g k h) ->
       res.2 !! 2%nat = Some (OAgg g k h)
       ∧ ∀ gl gd, st !! g = Some (OGraph gl gd) ->
           res.2 !! g = Some (OGraph gl gd)
           ∧ ∀ n d, gl !! n = Some d -> (d < length st)%nat ->
               res.2 !! d = st !! d)
  ∧ (∀ r, res.1 = Ok r ->
       (length st <= r)%nat
       ∧ ∃ g' k' h', res.2 !! r = Some (OAgg g' k' (Some h'))
                     ∧ (length st <= g')%nat).
Proof.
  intros href st res.
  apply (@operators_do_not_mutate plain_tokenizer (@__iadd__ plain_tokenizer)
           st 2%nat (PNum 2)).
  unfold operator_methods. apply list_elem_of_here.
Defined.

(** ** Operands of a binary operator *)

Lemma BinaryOp_call_scalars `{Tokenizer} (op : BinaryOp) (q1 q2 : Q) (st : store) :
  (BinaryOp_call op (PNum q1) (PNum q2) st).1 = Raise AttributeError.
Proof. done. Qed.

Lemma BinaryOp_call_left `{Tokenizer} (op : BinaryOp) (st : store) (a g : loc)
    (k : string) (h : Histref) gl gd (q : Q) :
  st !! a = Some (OAgg g k (Some h)) ->
  st !! g = Some (OGraph gl gd) ->
  let name := binary_name op (TokColl k) (TokNum q) in
  BinaryOp_call op (PRef a) (PNum q) st
  = (Ok (length st + 2)%nat,
     st ++ [ODict {[KName name := (bo_func op, [AKey (KName k); ALit (PNum q)])]};
            OGraph (<[name := length st]> gl) (<[name := {[k]}]> gd);
            OAgg (length st + 1)%nat name (Some h)]).
Proof.
  intros Ha Hg name.
  assert (a < length st)%nat by (by eapply lookup_lt_Some).
  assert (g < length st)%nat by (by eapply lookup_lt_Some).
  unfold BinaryOp_call, mbind, M_bind, get_store, tok, is_dask_collection.
  rewrite Ha. simpl. fold name. unfold alloc at 1.
  unfold from_collections, _from_collection, mbind, M_bind, get_store, lift,
    read_graph.
  rewrite lookup_app_l, Ha by done. simpl.
  rewrite lookup_app_l, Hg by done. unfold alloc at 1.
  unfold try_except_AttributeError, getattr_histref.
  rewrite <- app_assoc, lookup_app_l, Ha by done.
  unfold alloc. rewrite !length_app. simpl.
  rewrite <- !app_assoc. simpl.
  repeat f_equal; lia.
Qed.

Lemma BinaryOp_call_right `{Tokenizer} (op : BinaryOp) (st : store) (b g : loc)
    (k : string) (h : Histref) gl gd (q : Q) :
  st !! b = Some (OAgg g k (Some h)) ->
  st !! g = Some (OGraph gl gd) ->
  let name := binary_name op (TokNum q) (TokColl k) in
  BinaryOp_call op (PNum q) (PRef b) st
  = (Ok (length st + 2)%nat,
     st ++ [ODict {[KName name := (bo_func op, [ALit (PNum q); AKey (KName k)])]};
            OGraph (<[name := length st]> gl) (<[name := {[k]}]> gd);
            OAgg (length st + 1)%nat name (Some h)]).
Proof.
  intros Hb Hg name.
  assert (b < length st)%nat by (by eapply lookup_lt_Some).
  assert (g < length st)%nat by (by eapply lookup_lt_Some).
  unfold BinaryOp_call, mbind, M_bind, get_store, tok, is_dask_collection.
  rewrite Hb. simpl. fold name. unfold alloc at 1.
  unfold from_collections, _from_collection, mbind, M_bind, get_store, lift,
    read_graph.
  rewrite lookup_app_l, Hb by done. simpl.
  rewrite lookup_app_l, Hg by done. unfold alloc at 1.
  unfold try_except_AttributeError, getattr_histref.
  rewrite <- app_assoc, lookup_app_l, Hb by done.
  unfold alloc. rewrite !length_app. simpl.
  rewrite <- !app_assoc. simpl.
  repeat f_equal; lia.
Qed.

(** C9.  A binary operator construction whose operands are both plain
    numbers is rejected by the call itself, with the [AttributeError] of
    the lookup of [histref]; with an AggHistogram on one side and a number
    on the other the call returns a new AggHistogram whose histref is the
    one of the AggHistogram operand. *)
Theorem binary_op_operands `{Tokenizer} (op : BinaryOp) (st : store) :
  (∀ q1 q2 : Q,
     (BinaryOp_call op (PNum q1) (PNum q2) st).1 = Raise AttributeError)
  ∧ (∀ (a g : loc) (k : string) (h : Histref) gl gd (q : Q),
       st !! a = Some (OAgg g k (Some h)) ->
       st !! g = Some (OGraph gl gd) ->
       ∃ (r g' : loc) (name : string),
         (BinaryOp_call op (PRef a) (PNum q) st).1 = Ok r
         ∧ (BinaryOp_call op (PRef a) (PNum q) st).2 !! r
           = Some (OAgg g' name (Some h)))
  ∧ (∀ (b g : loc) (k : string) (h : Histref) gl gd (q : Q),
       st !! b = Some (OAgg g k (Some h)) ->
       st !! g = Some (OGraph gl gd) ->
       ∃ (r g' : loc) (name : string),
         (BinaryOp_call op (PNum q) (PRef b) st).1 = Ok r
         ∧ (BinaryOp_call op (PNum q) (PRef b) st).2 !! r
           = Some (OAgg g' name (Some h))).
Proof.
  split; [intros q1 q2; apply BinaryOp_call_scalars |].
  split.
  - intros a g k h gl gd q Ha Hg.
    rewrite (BinaryOp_call_left op st a g k h gl gd q Ha Hg). simpl.
    eexists _, _, _. split; [done |].
    rewrite lookup_app_r by lia.
    by replace (length st + 2 - length st)%nat with 2%nat by lia.
  - intros b g k h gl gd q Hb Hg.
    rewrite (BinaryOp_call_right op st b g k h gl gd q Hb Hg). simpl.
    eexists _, _, _. split; [done |].
    rewrite lookup_app_r by lia.
    by replace (length st + 2 - length st)%nat with 2%nat by lia.
Qed.

Lemma binary_op_operands_witness :
  let href := MkHistref [Axis 10 []] Double in
  let st := [ODict ∅; OGraph {["h" := 0%nat]} {["h" := ∅]};
             OAgg 1%nat "h" (Some href)] in
  (@BinaryOp_call plain_tokenizer _imul (PNum 2) (PNum 3) st).1
  = Raise AttributeError
  ∧ (∃ (r g' : loc) (name : string),
       (@BinaryOp_call plain_tokenizer _imul (PRef 2%nat) (PNum 3) st).1 = Ok r
       ∧ (@BinaryOp_call plain_tokenizer _imul (PRef 2%nat) (PNum 3) st).2 !! r
         = Some (OAgg g' name (Some href)))
  ∧ (∃ (r g' : loc) (name : string),
       (@BinaryOp_call plain_tokenizer _imul (PNum 3) (PRef 2%nat) st).1 = Ok r
       ∧ (@BinaryOp_call plain_tokenizer _imul (PNum 3) (PRef 2%nat) st).2 !! r
         = Some (OAgg g' name (Some href))).
Proof.
  intros href st.
  destruct (@binary_op_operands plain_tokenizer _imul st) as (H1 & H2 & H3).
  split; [apply H1 |]. split.
  - apply (H2 2%nat 1%nat "h" href {["h" := 0%nat]} {["h" := ∅]} 3%Q);
      reflexivity.
  - apply (H3 2%nat 1%nat "h" href {["h" := 0%nat]} {["h" := ∅]} 3%Q);
      reflexivity.
Defined.

(** ** Materialisation *)

Lemma to_dask_array_run `{Tokenizer} (st : store) (a g : loc) (key : string)
    (href : Histref) gl gd (flow dd : bool) :
  st !! a = Some (OAgg g key (Some href)) ->
  st !! g = Some (OGraph gl gd) ->
  let name := "to-dask-array-" +:+ tokenize [TokColl key] in
  let shape := if flow then map (fun i => i + 2) (href_shape href)
               else href_shape href in
  let dt := if int_storage href then dt_int else dt_float in
  let edges := map ax_edges (axes href) in
  to_dask_array a flow dd st
  = (Ok (if dd then ResultDD (length st + 2)%nat edges
         else ResultFlat (length st + 2)%nat edges),
     st ++ [ODict {[KTuple name (replicate (length (axes href)) 0) :=
                      (lambda_to_numpy, [AKey (KName key); ABool flow])]};
            OGraph (<[name := length st]> gl) (<[name := {[key]}]> gd);
            OArray (length st + 1)%nat name shape shape dt]).
Proof.
  intros Ha Hg name shape dt edges.
  assert (a < length st)%nat by (by eapply lookup_lt_Some).
  assert (g < length st)%nat by (by eapply lookup_lt_Some).
  unfold to_dask_array, mbind, M_bind, get_agg. rewrite Ha. simpl.
  unfold mret, M_ret. fold name.
  unfold _from_collection, mbind, M_bind, get_store, lift, read_graph.
  rewrite lookup_app_l, Ha by done. simpl.
  rewrite lookup_app_l, Hg by done. unfold alloc.
  rewrite !length_app. simpl. rewrite <- !app_assoc. simpl.
  fold shape dt edges.
  by replace (length st + 1 + 1)%nat with (length st + 2)%nat by lia.
Qed.

(** C8.  [to_dask_array] returns a content array whose dtype is integral
    when the storage of the reference histogram is [Int64] or
    [AtomicInt64] and floating-point otherwise, whose shape is the shape
    of the reference histogram, every extent enlarged by 2 when [flow] is
    set, and which is computed by a task that passes [flow] on to the
    extraction; with it come the edge arrays, one per axis. *)
Theorem to_dask_array_content `{Tokenizer} (st : store) (a g : loc)
    (key : string) (href : Histref)
    (gl : gmap string loc) (gd : gmap string (gset string)) (flow dd : bool) :
  st !! a = Some (OAgg g key (Some href)) ->
  st !! g = Some (OGraph gl gd) ->
  ∃ (c graph layer : loc) (name : string) (shape : list Z) (dt : dtype)
    (edges : list (list Q)) (gl' : gmap string loc) gd',
    (to_dask_array a flow dd st).1
      = Ok (if dd then ResultDD c edges else ResultFlat c edges)
    ∧ (to_dask_array a flow dd st).2 !! c
      = Some (OArray graph name shape shape dt)
    ∧ (dt = dt_int <->
       _storage_type href = Int64 ∨ _storage_type href = AtomicInt64)
    ∧ (dt = dt_float <->
       ¬ (_storage_type href = Int64 ∨ _storage_type href = AtomicInt64))
    ∧ shape = (if flow then map (fun i => i + 2) (href_shape href)
               else href_shape href)
    ∧ length shape = length (axes href)
    ∧ edges = map ax_edges (axes href)
    ∧ length edges = length (axes href)
    ∧ (to_dask_array a flow dd st).2 !! graph = Some (OGraph gl' gd')
    ∧ gl' !! name = Some layer
    ∧ (to_dask_array a flow dd st).2 !! layer
      = Some (ODict {[KTuple name (replicate (length (axes href)) 0) :=
                        (lambda_to_numpy, [AKey (KName key); ABool flow])]}).
Proof.
  intros Ha Hg.
  rewrite (to_dask_array_run st a g key href gl gd flow dd Ha Hg). simpl.
  eexists (length st + 2)%nat, (length st + 1)%nat, (length st), _, _, _, _, _, _.
  split; [done |]. split.
  { rewrite lookup_app_r by lia.
    by replace (length st + 2 - length st)%nat with 2%nat by lia. }
  split.
  { unfold int_storage. case_bool_decide; naive_solver. }
  split.
  { unfold int_storage. case_bool_decide; naive_solver. }
  split; [done |]. split.
  { unfold href_shape. destruct flow; by rewrite ?length_map. }
  split; [done |]. split; [by rewrite length_map |].
  split.
  { rewrite lookup_app_r by lia.
    by replace (length st + 1 - length st)%nat with 1%nat by lia. }
  split; [by rewrite lookup_insert_eq |].
  rewrite lookup_app_r by lia. by rewrite Nat.sub_diag.
Qed.

Lemma to_dask_array_content_witness :
  let href := MkHistref [Axis 10 []; Axis 20 []] Int64 in
  let st := [ODict ∅; OGraph {["h" := 0%nat]} {["h" := ∅]};
             OAgg 1%nat "h" (Some href)] in
  ∃ (c graph layer : loc) (name : string) (shape : list Z) (dt : dtype)
    (edges : list (list Q)) (gl' : gmap string loc) gd',
    (@to_dask_array plain_tokenizer 2%nat true false st).1
      = Ok (ResultFlat c edges)
    ∧ (@to_dask_array plain_tokenizer 2%nat true false st).2 !! c
      = Some (OArray graph name shape shape dt)
    ∧ (dt = dt_int <-> Int64 = Int64 ∨ Int64 = AtomicInt64)
    ∧ (dt = dt_float <-> ¬ (Int64 = Int64 ∨ Int64 = AtomicInt64))
    ∧ shape = [12; 22]
    ∧ length shape = 2%nat
    ∧ edges = [[]; []]
    ∧ length edges = 2%nat
    ∧ (@to_dask_array plain_tokenizer 2%nat true false st).2 !! graph
      = Some (OGraph gl' gd')
    ∧ gl' !! name = Some layer
    ∧ (@to_dask_array plain_tokenizer 2%nat true false st).2 !! layer
      = Some (ODict {[KTuple name [0; 0] :=
                        (lambda_to_numpy, [AKey (KName "h"); ABool true])]}).
Proof.
  intros href st.
  apply (@to_dask_array_content plain_tokenizer st 2%nat 1%nat "h" href
           {["h" := 0%nat]} {["h" := ∅]} true false); reflexivity.
Defined.

(** The extents [(10, 20)] give the shape [(10, 20)] without the flow
    bins and [(12, 22)] with them; weighted storage gives a float array. *)
Example to_dask_array_10_20 :
  let st (s : storage) :=
    [ODict ∅; OGraph {["h" := 0%nat]} {["h" := ∅]};
     OAgg 1%nat "h" (Some (MkHistref [Axis 10 []; Axis 20 []] s))] in
  (@to_dask_array plain_tokenizer 2%nat false false (st Int64)).2 !! 5%nat
    = Some (OArray 4%nat "to-dask-array-<h>;" [10; 20] [10; 20] dt_int)
  ∧ (@to_dask_array plain_tokenizer 2%nat true false (st Int64)).2 !! 5%nat
    = Some (OArray 4%nat "to-dask-array-<h>;" [12; 22] [12; 22] dt_int)
  ∧ (@to_dask_array plain_tokenizer 2%nat true true (st Weight)).2 !! 5%nat
    = Some (OArray 4%nat "to-dask-array-<h>;" [12; 22] [12; 22] dt_float).
Proof. vm_compute. split_and!; reflexivity. Qed.

(** ** The partitioned result is returned as it is *)

(** C4 (amended).  The finalization step of a PartitionedHistogram is
    the identity, in core.py and in hlg.py: computing a
    PartitionedHistogram returns the list of the results of its
    partitions as the executor produced it, not their sum. *)
Theorem finalize_is_identity `{Accumulator} (results : list pyval) :
  compute_partitioned results = VList results
  ∧ _finalize_partitioned_histogram (VList results) = VList results
  ∧ hlg.finalize (VList results) = VList results.
Proof. done. Qed.

(** C4, as stated, fails: two partial histograms come back as a list of
    two, not as their sum. *)
Lemma finalize_does_not_sum :
  let results := [@VHist counting_accumulator 1; @VHist counting_accumulator 2] in
  @compute_partitioned counting_accumulator results = VList results
  ∧ @compute_partitioned counting_accumulator results
    ≠ @py_sum counting_accumulator [1; 2].
Proof. split; [reflexivity | discriminate]. Qed.

(** ** Inverting successful runs *)






(** ** Names *)







(** The default bound and an explicit bound of four give the same key. *)
Example default_split_same_key :
  let href := MkHistref [Axis 10 []] Double in
  let st := [OGraph ∅ ∅; OColl (Collection 0%nat "x" 3 1 false)] in
  (@_reduced_histogram plain_tokenizer plain_partitionwise
     3 [1%nat] href None SplitNone st).2 !! 7%nat
  = (@_reduced_histogram plain_tokenizer plain_partitionwise
       3 [1%nat] href None (SplitInt 4) st).2 !! 7%nat.
Proof. vm_compute. reflexivity. Qed.

(** ** Where the rank of the data is checked *)






